(** * NGSolve/Talk-LLNL, [mycpp/mymodule.cpp]: the registration shim

    The file under verification is the entry point [mymodule] that a host
    finite-element framework calls to obtain a Python extension module
    exporting the class [MyHighOrderFESpace].

    [Host] describes the process state the entry point acts on and the
    library calls it makes; [MyModule] is the entry point itself, statement
    by statement; [HO] is the data model of the two units the file
    includes. The properties follow the definitions. *)

From stdpp Require Import base strings list gmap.

(** ** The host: interpreter state and binding-layer primitives *)

Module Host.

(** C++ classes that cross the binding layer: the host's generic
    finite-element-space base and the class this component defines. *)
Inductive CppType : Type :=
| FESpace
| MyHighOrderFESpace.

#[global] Instance CppType_eq_dec : EqDecision CppType.
Proof. solve_decision. Defined.

(** A [py::module] value: a reference to a module the interpreter has
    imported (known by its name in [sys.modules]) or to an extension module
    object created through the binding layer (known by its address). *)
Inductive py_module : Type :=
| ImportedModule (name : string)
| ExtensionModule (addr : nat).

#[global] Instance py_module_eq_dec : EqDecision py_module.
Proof. solve_decision. Defined.

(** A [py::object]: a reference that may be empty. *)
Definition py_object : Type := option py_module.

(** What a class export leaves in a module's dictionary. *)
Record py_class : Type := mk_py_class {
  cls_type : CppType;          (* the C++ class behind the Python class *)
  cls_base : CppType;          (* the Python base class it derives from *)
  cls_module_local : bool      (* pybind11's [module_local] flag *)
}.

#[global] Instance py_class_eq_dec : EqDecision py_class.
Proof. solve_decision. Defined.

(** An extension module object: its name, docstring and the classes its
    dictionary holds, keyed by their Python names. *)
Record module_obj : Type := mk_module_obj {
  mod_name : string;
  mod_doc : string;
  mod_dict : gmap string py_class
}.

(** The part of [py::module::module_def] the source sets: name and doc. *)
Record module_def : Type := mk_module_def {
  m_name : string;
  m_doc : string
}.

#[global] Instance module_def_eq_dec : EqDecision module_def.
Proof. solve_decision. Defined.

(** The variables of this component with static storage duration. There
    is one: [static py::module::module_def def;] (line 15). A pointer to a
    definition record, such as [&def], is the name of the variable. *)
Inductive static_var : Type :=
| def.

#[global] Instance static_var_eq_dec : EqDecision static_var.
Proof. solve_decision. Defined.

(** The library calls, in the order they reach the host. *)
Inductive call : Type :=
| CallCout (text : string)
| CallEndl
| CallImport (name : string)
| CallCreateExtensionModule (name doc : string) (addr : nat)
| CallExportFESpace (FES : CppType) (m : py_module) (pyname : string)
                    (module_local : bool).

(** Everything a call of the entry point can read or change.
    [statics] is the storage of the static variables: it is
    zero-initialised at program start ([None]) and outlives every call. *)
Record world : Type := mk_world {
  stdout : string;                 (* characters written to [cout] *)
  stderr : string;                 (* characters written to [cerr] *)
  sys_modules : gset string;       (* modules the interpreter has imported *)
  heap : list module_obj;          (* extension modules, by address *)
  statics : static_var -> option module_def;  (* static storage *)
  calls : list call                (* library calls so far, oldest first *)
}.

(** The state of a process in which nothing has run yet. *)
Definition world0 : world :=
  {| stdout := ""; stderr := ""; sys_modules := ∅; heap := [];
     statics := fun _ => None; calls := [] |}.

(** Computations over the world. Each primitive is given in the case
    where the library call returns normally; a C++ exception raised by the
    host would leave [mymodule] at that call and is outside this
    description. *)
Definition St (A : Type) : Type := world -> A * world.

#[global] Instance St_ret : MRet St := fun A a w => (a, w).
#[global] Instance St_bind : MBind St :=
  fun A B f c w => let '(a, w') := c w in f a w'.

Definition logged (c : call) (w : world) : world :=
  {| stdout := stdout w; stderr := stderr w; sys_modules := sys_modules w;
     heap := heap w; statics := statics w; calls := calls w ++ [c] |}.

(** The line terminator [endl] inserts. *)
Definition newline : string := String (Ascii.ascii_of_nat 10) EmptyString.

(** [cout << text] *)
Definition cout (text : string) : St unit := fun w =>
  (tt, logged (CallCout text)
    {| stdout := stdout w +:+ text; stderr := stderr w;
       sys_modules := sys_modules w; heap := heap w;
       statics := statics w; calls := calls w |}).

(** [cout << endl]: a newline, then a flush. *)
Definition endl : St unit := fun w =>
  (tt, logged CallEndl
    {| stdout := stdout w +:+ newline; stderr := stderr w;
       sys_modules := sys_modules w; heap := heap w;
       statics := statics w; calls := calls w |}).

(** [py::module::import(name)]: the module is in [sys.modules] afterwards
    and a reference to it is returned. *)
Definition import (name : string) : St py_module := fun w =>
  (ImportedModule name, logged (CallImport name)
    {| stdout := stdout w; stderr := stderr w;
       sys_modules := {[ name ]} ∪ sys_modules w; heap := heap w;
       statics := statics w; calls := calls w |}).

(** [py::module::create_extension_module(name, doc, ptr)]: fills the
    definition record [ptr] points to and creates a module object with an
    empty dictionary at a fresh address. *)
Definition create_extension_module (name doc : string) (ptr : static_var)
    : St py_module := fun w =>
  let addr := length (heap w) in
  (ExtensionModule addr, logged (CallCreateExtensionModule name doc addr)
    {| stdout := stdout w; stderr := stderr w;
       sys_modules := sys_modules w;
       heap := heap w ++ [ {| mod_name := name; mod_doc := doc; mod_dict := ∅ |} ];
       statics := fun v => if decide (v = ptr)
                           then Some {| m_name := name; m_doc := doc |}
                           else statics w v;
       calls := calls w |}).

Definition add_class (pyname : string) (c : py_class) (mo : module_obj) : module_obj :=
  {| mod_name := mod_name mo; mod_doc := mod_doc mo;
     mod_dict := <[ pyname := c ]> (mod_dict mo) |}.

(** [ExportFESpace<FES>(m, pyname, module_local)], the host's helper that
    exports a finite-element-space class: [m] gains a class [pyname] backed
    by [FES] and derived from the host's [FESpace]. Classes added to an
    imported host module are not tracked here. *)
Definition ExportFESpace (FES : CppType) (m : py_module) (pyname : string)
    (module_local : bool) : St unit := fun w =>
  let c := {| cls_type := FES; cls_base := FESpace;
              cls_module_local := module_local |} in
  (tt, logged (CallExportFESpace FES m pyname module_local)
    {| stdout := stdout w; stderr := stderr w;
       sys_modules := sys_modules w;
       heap := match m with
               | ExtensionModule addr => alter (add_class pyname c) addr (heap w)
               | ImportedModule _ => heap w
               end;
       statics := statics w; calls := calls w |}).

(** The module object a [py::object] refers to, if it refers to an
    extension module that exists. *)
Definition deref (w : world) (o : py_object) : option module_obj :=
  match o with
  | Some (ExtensionModule addr) => heap w !! addr
  | _ => None
  end.

End Host.

(** ** The entry point *)

Module MyModule.
Import Host.

(** [extern "C" void mymodule(py::object & res)], lines 10-23. The
    reference parameter is modelled by its value on entry (the argument)
    and its value on return (the result). *)
Definition mymodule (res : py_object) : St py_object :=
  cout "called mymodule";; endl;;
  ngs ← import "ngsolve";
  m ← create_extension_module "" "" def;
  ExportFESpace MyHighOrderFESpace m "MyHighOrderFESpace" true;;
  mret (Some m).

(** The class the entry point exports and the module it hands back. *)
Definition exported_class : py_class :=
  {| cls_type := MyHighOrderFESpace; cls_base := FESpace;
     cls_module_local := true |}.

Definition registered_module : module_obj :=
  {| mod_name := ""; mod_doc := "";
     mod_dict := {[ "MyHighOrderFESpace" := exported_class ]} |}.

(** The line the entry point prints. *)
Definition banner : string := "called mymodule" +:+ newline.

(** [n] calls in a row on the same [res]: each call receives the reference
    the call before it left there. *)
Fixpoint mymodule_times (n : nat) (res : py_object) : St py_object :=
  match n with
  | 0 => mret res
  | S n' => res' ← mymodule res; mymodule_times n' res'
  end.

(** [n] copies of a line, one after the other. *)
Fixpoint lines (n : nat) (line : string) : string :=
  match n with
  | 0 => ""
  | S n' => line +:+ lines n' line
  end.

(** In a log of library calls, every export of a finite-element-space
    class comes after an import of "ngsolve" (the comment on line 12: the
    import is what defines the Python base classes). *)
Definition imported_before_export (log : list call) : Prop :=
  forall i FES m pyname module_local,
    log !! i = Some (CallExportFESpace FES m pyname module_local) ->
    exists j, j < i /\ log !! j = Some (CallImport "ngsolve").

End MyModule.

(** ** The element and space units

    [mymodule.cpp] includes [myHOElement.cpp] and [myHOFESpace.cpp] (lines
    6-7), which define the exported class and its elements. Neither file
    is among the sources, so the data model and the operations below are
    written from the specification, section by section. *)

Module HO.

(** Modelled from the spec: the reference-cell kinds of the missing
    [myHOElement.cpp] (section 4.1: segment, triangle, tetrahedron). *)
Inductive Geometry : Type :=
| Segment
| Triangle
| Tetrahedron.

(** Modelled from the spec: the mesh entities of section 3 (missing
    [myHOFESpace.cpp]); each has a stable global index within its kind. A
    face is triangular and a cell is tetrahedral, as in the DOF-count rules
    of that section. *)
Inductive Entity : Type :=
| Vertex (i : nat)
| Edge (i : nat)
| Face (i : nat)
| Cell (i : nat).

#[global] Instance Entity_eq_dec : EqDecision Entity.
Proof. solve_decision. Defined.

(** Modelled from the spec: the DOF counts of section 3 (missing
    [myHOFESpace.cpp]): a vertex owns 1 DOF, an edge of order p owns p-1,
    a triangular face (p-1)(p-2)/2, a tetrahedral cell, by analogy,
    (p-1)(p-2)(p-3)/6. An order is a non-negative integer and so is a
    count: subtraction stops at zero, which is the edge-case policy of
    section 4.2 (no edge, face or cell DOFs at order 0 and 1). *)
Definition vertex_ndof : nat := 1.
Definition edge_ndof (p : nat) : nat := p - 1.
Definition face_ndof (p : nat) : nat := (p - 1) * (p - 2) / 2.
Definition cell_ndof (p : nat) : nat := (p - 1) * (p - 2) * (p - 3) / 6.

(** Modelled from the spec: the number of DOFs an entity owns under an
    order assignment (section 3, missing [myHOFESpace.cpp]). *)
Definition entity_ndof (order : Entity -> nat) (e : Entity) : nat :=
  match e with
  | Vertex _ => vertex_ndof
  | Edge _ => edge_ndof (order e)
  | Face _ => face_ndof (order e)
  | Cell _ => cell_ndof (order e)
  end.

(** Modelled from the spec: the sub-entity counts of the three reference
    cells of section 4.1 (missing [myHOElement.cpp]). A cell is itself the
    entity of its own dimension: a segment is an edge, a triangle a face,
    a tetrahedron a cell. *)
Definition nvertices (g : Geometry) : nat :=
  match g with Segment => 2 | Triangle => 3 | Tetrahedron => 4 end.
Definition nedges (g : Geometry) : nat :=
  match g with Segment => 1 | Triangle => 3 | Tetrahedron => 6 end.
Definition nfaces (g : Geometry) : nat :=
  match g with Segment => 0 | Triangle => 1 | Tetrahedron => 4 end.
Definition ncells (g : Geometry) : nat :=
  match g with Segment => 0 | Triangle => 0 | Tetrahedron => 1 end.

(** Modelled from the spec: the errors the two missing units report
    (sections 4.2, 4.3 and 7). *)
Inductive Error : Type :=
| NotUpdated
| UnsupportedOrder
| OrderMismatch
| OutOfDomain.

Inductive Result (A : Type) : Type :=
| Ok (a : A)
| Err (e : Error).
Arguments Ok {A} a.
Arguments Err {A} e.

(** *** Finite elements *)

Module Element.

(** Modelled from the spec: the Finite Element of section 4.2 (missing
    [myHOElement.cpp]), built from a cell geometry and the orders of the
    cell's edges, faces and interior in local order. Orientation data is
    left out: no property stated below depends on it. *)
Record FiniteElement : Type := mk_FiniteElement {
  fe_geometry : Geometry;
  fe_edge_orders : list nat;
  fe_face_orders : list nat;
  fe_cell_orders : list nat
}.

(** Modelled from the spec: a local shape function of section 4.1
    (missing [myHOElement.cpp]), named by the entity it belongs to (local
    index) and its place in that entity's block. An edge function is named
    by its polynomial degree, 2 up to the edge order. *)
Inductive ShapeFunction : Type :=
| VertexFunction (v : nat)
| EdgeFunction (e degree : nat)
| FaceFunction (f k : nat)
| CellFunction (c k : nat).

(** Modelled from the spec: the blocks of one entity kind (section 4.1,
    missing [myHOElement.cpp]), for entities [0, 1, ...] with the given
    orders: entity by entity, each block in its own order. *)
Definition blocks (block : nat -> nat -> list ShapeFunction) (orders : list nat)
    : list ShapeFunction :=
  mjoin (imap block orders).

(** Modelled from the spec: the ordered sequence of local shape functions
    of section 4.1 (missing [myHOElement.cpp]): one function per vertex,
    then edge functions by local edge and degree, then face functions,
    then cell functions. *)
Definition shape_functions (fe : FiniteElement) : list ShapeFunction :=
  (VertexFunction <$> seq 0 (nvertices (fe_geometry fe)))
  ++ blocks (fun e p => EdgeFunction e <$> seq 2 (edge_ndof p)) (fe_edge_orders fe)
  ++ blocks (fun f p => FaceFunction f <$> seq 0 (face_ndof p)) (fe_face_orders fe)
  ++ blocks (fun c p => CellFunction c <$> seq 0 (cell_ndof p)) (fe_cell_orders fe).

(** Modelled from the spec: [GetNDof] of a Finite Element (section 4.2,
    missing [myHOElement.cpp]): the number of its local shape functions. *)
Definition GetNDof (fe : FiniteElement) : nat := length (shape_functions fe).

(** Modelled from the spec: construction of a Finite Element (section
    4.2, missing [myHOElement.cpp]). It fails with [UnsupportedOrder] when
    a requested order exceeds the supported maximum [p_max], whose value
    the spec leaves open. *)
Definition make_element (p_max : nat) (g : Geometry)
    (edge_orders face_orders cell_orders : list nat) : Result FiniteElement :=
  if forallb (fun p => p <=? p_max) (edge_orders ++ face_orders ++ cell_orders)
  then Ok {| fe_geometry := g; fe_edge_orders := edge_orders;
             fe_face_orders := face_orders; fe_cell_orders := cell_orders |}
  else Err UnsupportedOrder.

(** Modelled from the spec: the element of geometry [g] whose entities all
    have order [p] (section 8, "for all supported cell geometries and
    orders"; missing [myHOElement.cpp]). *)
Definition uniform_element (p_max : nat) (g : Geometry) (p : nat)
    : Result FiniteElement :=
  make_element p_max g (replicate (nedges g) p) (replicate (nfaces g) p)
               (replicate (ncells g) p).

End Element.

(** *** Finite element spaces *)

(** Modelled from the spec: a mesh cell as the space sees it (sections 2
    and 3, missing [myHOFESpace.cpp]; the mesh itself is the host's): its
    geometry and the global indices of its vertices, edges, faces and
    interior cell, in local order. *)
Record MeshCell : Type := mk_MeshCell {
  geometry : Geometry;
  cell_vertices : list nat;
  cell_edges : list nat;
  cell_faces : list nat;
  cell_cells : list nat
}.

(** Modelled from the spec: the host mesh (sections 2 and 3): how many
    vertices it has, the vertex pairs of its edges, the vertex triples of
    its faces, the vertex quadruples of its tetrahedra, and the cells the
    assembly loop iterates over. *)
Record Mesh : Type := mk_Mesh {
  mesh_nv : nat;
  mesh_edges : list (nat * nat);
  mesh_faces : list (nat * nat * nat);
  mesh_tets : list (nat * nat * nat * nat);
  mesh_cells : list MeshCell
}.

(** Modelled from the spec: the entities of a mesh in the numbering order
    of section 4.3 (missing [myHOFESpace.cpp]): vertices, then edges, then
    faces, then cells, each kind by global index. *)
Definition entities (m : Mesh) : list Entity :=
  (Vertex <$> seq 0 (mesh_nv m))
  ++ (Edge <$> seq 0 (length (mesh_edges m)))
  ++ (Face <$> seq 0 (length (mesh_faces m)))
  ++ (Cell <$> seq 0 (length (mesh_tets m))).

(** Modelled from the spec: the entities of one cell in the order of its
    element's blocks (sections 4.1 and 4.3, missing [myHOFESpace.cpp]). *)
Definition cell_entities (c : MeshCell) : list Entity :=
  (Vertex <$> cell_vertices c) ++ (Edge <$> cell_edges c)
  ++ (Face <$> cell_faces c) ++ (Cell <$> cell_cells c).

(** Modelled from the spec: the range of global DOF indices one entity
    owns (section 4.3, "global DOF index ranges per entity"; missing
    [myHOFESpace.cpp]). *)
Record Range : Type := mk_Range {
  owner : Entity;
  first : nat;
  count : nat
}.

(** Modelled from the spec: the state machine of section 4.3 (missing
    [myHOFESpace.cpp]). *)
Inductive Status : Type :=
| Uninitialized
| Ready
| Stale.

Module Space.

(** Modelled from the spec: the Finite Element Space of section 4.3
    (missing [myHOFESpace.cpp]): the mesh, the order attached to each
    entity, the state, and what the last [Update] computed: the number of
    global DOFs and the index range of every entity. *)
Record FESpace : Type := mk_FESpace {
  mesh : Mesh;
  order : Entity -> nat;
  status : Status;
  ndof : nat;
  table : list Range
}.

(** Modelled from the spec: the numbering step of [Update] (section 4.3,
    missing [myHOFESpace.cpp]): hands out consecutive index ranges,
    starting at [next], to the entities in list order; returns the ranges
    and the next free index. *)
Fixpoint assign (cnt : Entity -> nat) (es : list Entity) (next : nat)
    : list Range * nat :=
  match es with
  | [] => ([], next)
  | e :: es' =>
      let '(rs, n) := assign cnt es' (next + cnt e) in
      ({| owner := e; first := next; count := cnt e |} :: rs, n)
  end.

(** Modelled from the spec: construction of a space from a mesh and an
    order configuration (section 3, lifecycle; missing
    [myHOFESpace.cpp]). *)
Definition Create (m : Mesh) (o : Entity -> nat) : FESpace :=
  {| mesh := m; order := o; status := Uninitialized; ndof := 0; table := [] |}.

(** Modelled from the spec: [Update] (section 4.3, missing
    [myHOFESpace.cpp]): numbers the DOFs entity by entity in the stable
    order and makes the space Ready. An order belongs to the entity
    itself here, so two cells cannot disagree on it and the OrderMismatch
    check has nothing to reject. *)
Definition Update (s : FESpace) : FESpace :=
  let '(rs, n) := assign (entity_ndof (order s)) (entities (mesh s)) 0 in
  {| mesh := mesh s; order := order s; status := Ready; ndof := n; table := rs |}.

(** Modelled from the spec: any change of the mesh or of the order
    assignment (section 4.3, missing [myHOFESpace.cpp]): a Ready space
    becomes Stale; what the last [Update] computed stays as it was. *)
Definition Mutate (m : Mesh) (o : Entity -> nat) (s : FESpace) : FESpace :=
  {| mesh := m; order := o;
     status := match status s with Ready => Stale | st => st end;
     ndof := ndof s; table := table s |}.

(** Modelled from the spec: [GetNDof] of the space (section 4.3, missing
    [myHOFESpace.cpp]): the total computed by the last [Update]. *)
Definition GetNDof (s : FESpace) : nat := ndof s.

(** Modelled from the spec: the global indices an entity owns, in
    increasing order, none if the entity is not in the table (section 4.3,
    missing [myHOFESpace.cpp]). *)
Definition entity_dofs (rs : list Range) (e : Entity) : list nat :=
  match List.find (fun r => bool_decide (owner r = e)) rs with
  | Some r => seq (first r) (count r)
  | None => []
  end.

(** Modelled from the spec: [GetDofNrs] (section 4.3, missing
    [myHOFESpace.cpp]): for each entity of the cell, in the order of the
    element's blocks, the global indices that entity owns; a space that
    is not Ready answers NotUpdated. *)
Definition GetDofNrs (s : FESpace) (c : MeshCell) : Result (list nat) :=
  match status s with
  | Ready => Ok (mjoin (entity_dofs (table s) <$> cell_entities c))
  | _ => Err NotUpdated
  end.

(** Modelled from the spec: [GetFE] (section 4.3, missing
    [myHOFESpace.cpp]): the element of the cell under the current orders;
    a space that is not Ready answers NotUpdated. *)
Definition GetFE (p_max : nat) (s : FESpace) (c : MeshCell)
    : Result Element.FiniteElement :=
  match status s with
  | Ready => Element.make_element p_max (geometry c)
               ((fun i => order s (Edge i)) <$> cell_edges c)
               ((fun i => order s (Face i)) <$> cell_faces c)
               ((fun i => order s (Cell i)) <$> cell_cells c)
  | _ => Err NotUpdated
  end.

(** The spaces a caller can obtain: a created space, updated and mutated
    any number of times. The queries return values and leave the space
    as it is. *)
Inductive reachable : FESpace -> Prop :=
| reach_Create m o : reachable (Create m o)
| reach_Update s : reachable s -> reachable (Update s)
| reach_Mutate m o s : reachable s -> reachable (Mutate m o s).

(** Index [d] lies in range [r]. *)
Definition in_range (r : Range) (d : nat) : Prop :=
  first r <= d < first r + count r.

(** Entity [e] owns index [d] in the table of [s]. *)
Definition owns (s : FESpace) (e : Entity) (d : nat) : Prop :=
  exists r, r ∈ table s /\ owner r = e /\ in_range r d.

(** Ranges laid end to end from index [a] up to index [b]. *)
Fixpoint contiguous (rs : list Range) (a b : nat) : Prop :=
  match rs with
  | [] => a = b
  | r :: rs' => first r = a /\ contiguous rs' (a + count r) b
  end.

(** What every reachable space satisfies: the table lays the ranges end
    to end from 0 to the total, and while the space is Ready its owners
    are the entities of the mesh, in numbering order. *)
Definition table_ok (s : FESpace) : Prop :=
  contiguous (table s) 0 (ndof s)
  /\ (status s = Ready -> owner <$> table s = entities (mesh s)).

End Space.

(** Modelled from the spec: the meshes of the scenario of section 8. The
    unit triangle has vertices 0, 1, 2, edges 0 = (0,1), 1 = (1,2),
    2 = (0,2) and one face. *)
Definition unit_triangle_cell : MeshCell :=
  {| geometry := Triangle; cell_vertices := [0; 1; 2];
     cell_edges := [0; 1; 2]; cell_faces := [0]; cell_cells := [] |}.

Definition unit_triangle : Mesh :=
  {| mesh_nv := 3; mesh_edges := [(0, 1); (1, 2); (0, 2)];
     mesh_faces := [(0, 1, 2)]; mesh_tets := [];
     mesh_cells := [unit_triangle_cell] |}.

(** Modelled from the spec: the second scenario mesh of section 8, the
    triangles (0,1,2) and (1,3,2), which share edge 1 = (1,2). *)
Definition second_triangle_cell : MeshCell :=
  {| geometry := Triangle; cell_vertices := [1; 3; 2];
     cell_edges := [3; 4; 1]; cell_faces := [1]; cell_cells := [] |}.

Definition two_triangles : Mesh :=
  {| mesh_nv := 4; mesh_edges := [(0, 1); (1, 2); (0, 2); (1, 3); (2, 3)];
     mesh_faces := [(0, 1, 2); (1, 3, 2)]; mesh_tets := [];
     mesh_cells := [unit_triangle_cell; second_triangle_cell] |}.

(** Modelled from the spec: the uniform order configuration of section 6. *)
Definition uniform_order (p : nat) : Entity -> nat := fun _ => p.

End HO.

(** * Properties of the entry point *)

Section EntryPoint.
Import Host MyModule.

Lemma append_assoc (a b c : string) : (a +:+ b) +:+ c = a +:+ (b +:+ c).
Proof.
  induction a as [|x a IH]; [reflexivity |].
  change (String x ((a +:+ b) +:+ c) = String x (a +:+ (b +:+ c))).
  by rewrite IH.
Qed.

(** The statements of [mymodule] run in sequence on any world: what is
    returned and what each component of the world becomes. *)
Lemma mymodule_returns res w :
  (mymodule res w).1 = Some (ExtensionModule (length (heap w))).
Proof. reflexivity. Qed.

Lemma mymodule_stdout res w :
  stdout (mymodule res w).2 = stdout w +:+ banner.
Proof. unfold banner. rewrite <- append_assoc. reflexivity. Qed.

Lemma mymodule_stderr res w : stderr (mymodule res w).2 = stderr w.
Proof. reflexivity. Qed.

Lemma mymodule_sys_modules res w :
  sys_modules (mymodule res w).2 = {[ "ngsolve" ]} ∪ sys_modules w.
Proof. reflexivity. Qed.

Lemma mymodule_statics res w :
  statics (mymodule res w).2 def = Some {| m_name := ""; m_doc := "" |}.
Proof. reflexivity. Qed.

Lemma mymodule_heap res w :
  heap (mymodule res w).2 = heap w ++ [registered_module].
Proof.
  change (heap (mymodule res w).2)
    with (alter (add_class "MyHighOrderFESpace" exported_class) (length (heap w))
            (heap w ++ [ {| mod_name := ""; mod_doc := ""; mod_dict := ∅ |} ])).
  by rewrite alter_app_r_alt, Nat.sub_diag by lia.
Qed.

Lemma mymodule_calls res w :
  calls (mymodule res w).2 =
  calls w ++ [ CallCout "called mymodule"; CallEndl; CallImport "ngsolve";
               CallCreateExtensionModule "" "" (length (heap w));
               CallExportFESpace MyHighOrderFESpace
                 (ExtensionModule (length (heap w))) "MyHighOrderFESpace" true ].
Proof.
  change (calls (mymodule res w).2)
    with (((((calls w ++ [CallCout "called mymodule"]) ++ [CallEndl])
            ++ [CallImport "ngsolve"])
            ++ [CallCreateExtensionModule "" "" (length (heap w))])
            ++ [CallExportFESpace MyHighOrderFESpace
                  (ExtensionModule (length (heap w))) "MyHighOrderFESpace" true]).
  by rewrite <- !app_assoc.
Qed.

Lemma mymodule_deref res w :
  deref (mymodule res w).2 (mymodule res w).1 = Some registered_module.
Proof.
  rewrite mymodule_returns. unfold deref. rewrite mymodule_heap.
  apply list_lookup_middle. reflexivity.
Qed.

(** C1. Calling [mymodule] hands back a module that holds a class named
    "MyHighOrderFESpace"; the class is backed by the C++ type
    [MyHighOrderFESpace] and derives from the host's generic [FESpace]. *)
Theorem mymodule_exports_MyHighOrderFESpace (res : py_object) (w : world) :
  exists mo cls,
    deref (mymodule res w).2 (mymodule res w).1 = Some mo
    /\ mod_dict mo !! "MyHighOrderFESpace" = Some cls
    /\ cls_type cls = MyHighOrderFESpace
    /\ cls_base cls = FESpace.
Proof.
  exists registered_module, exported_class.
  split; [apply mymodule_deref |].
  split; [apply lookup_singleton_eq | done].
Qed.

(** C10. Whatever [res] holds on entry, a call first prints the line
    "called mymodule", then imports "ngsolve", then creates an extension
    module with empty name and docstring, exports the one class
    [MyHighOrderFESpace] into it and stores it in [res]; the module did not
    exist before the call. *)
Theorem mymodule_behaviour (res : py_object) (w : world) :
  let r := mymodule res w in
  calls r.2 =
    calls w ++ [ CallCout "called mymodule"; CallEndl; CallImport "ngsolve";
                 CallCreateExtensionModule "" "" (length (heap w));
                 CallExportFESpace MyHighOrderFESpace
                   (ExtensionModule (length (heap w))) "MyHighOrderFESpace" true ]
  /\ stdout r.2 = stdout w +:+ "called mymodule" +:+ newline
  /\ "ngsolve" ∈ sys_modules r.2
  /\ r.1 = Some (ExtensionModule (length (heap w)))
  /\ deref w r.1 = None
  /\ (exists mo, deref r.2 r.1 = Some mo
        /\ mod_name mo = "" /\ mod_doc mo = ""
        /\ mod_dict mo = {[ "MyHighOrderFESpace" := exported_class ]})
  /\ (forall res', mymodule res' w = r).
Proof.
  intros r. subst r.
  split; [apply mymodule_calls |].
  split; [apply mymodule_stdout |].
  split; [rewrite mymodule_sys_modules; set_solver |].
  split; [apply mymodule_returns |].
  split.
  { rewrite mymodule_returns. unfold deref. apply lookup_ge_None. lia. }
  split; [| reflexivity].
  exists registered_module. split; [apply mymodule_deref | done].
Qed.

(** C2, as the code has it. Of two successive calls that both return, the
    second hands back a module with the same content as the first (name,
    docstring and classes), in a module object of its own, and leaves the
    first module as it was; the static [def] is state the component keeps
    between the calls, and each call stores the same value in it. *)
Theorem mymodule_twice (res : py_object) (w : world) :
  let r1 := mymodule res w in
  let r2 := mymodule r1.1 r1.2 in
  deref r2.2 r2.1 = deref r1.2 r1.1
  /\ deref r1.2 r1.1 = Some registered_module
  /\ r2.1 <> r1.1
  /\ deref r2.2 r1.1 = deref r1.2 r1.1
  /\ statics r1.2 def = Some {| m_name := ""; m_doc := "" |}
  /\ statics r2.2 def = statics r1.2 def.
Proof.
  intros r1 r2. subst r1 r2.
  split; [by rewrite !mymodule_deref |].
  split; [apply mymodule_deref |].
  split.
  { rewrite !mymodule_returns, mymodule_heap, length_app. simpl.
    intros [=]. lia. }
  split.
  { rewrite mymodule_deref, mymodule_returns. unfold deref.
    rewrite !mymodule_heap. apply lookup_app_l_Some, list_lookup_middle.
    reflexivity. }
  split; [apply mymodule_statics | by rewrite !mymodule_statics].
Qed.

(** C2, as stated, fails in a fresh process: the first call leaves the
    static [def] filled, so the component does hold state between the
    first call and the second. *)
Lemma mymodule_fills_static_def :
  let r1 := mymodule None world0 in
  let r2 := mymodule r1.1 r1.2 in
  ~ (deref r2.2 r2.1 = deref r1.2 r1.1 /\ statics r1.2 def = statics world0 def).
Proof. intros r1 r2 [_ H]. discriminate H. Qed.

(** C3, as the code has it. A call appends exactly the line
    "called mymodule" to standard output, whatever was written before, and
    writes nothing to the error stream. *)
Theorem mymodule_output (res : py_object) (w : world) :
  stdout (mymodule res w).2 = stdout w +:+ "called mymodule" +:+ newline
  /\ stderr (mymodule res w).2 = stderr w.
Proof. split; [apply mymodule_stdout | apply mymodule_stderr]. Qed.

(** C3, as stated, fails in a fresh process: after one call standard
    output is no longer empty. *)
Lemma mymodule_prints :
  stdout (mymodule None world0).2 <> stdout world0.
Proof. discriminate. Qed.

End EntryPoint.

(** * The entry point called again and again *)

Section RepeatedCalls.
Import Host MyModule.

Lemma mymodule_times_S n res w :
  mymodule_times (S n) res w =
  mymodule_times n (mymodule res w).1 (mymodule res w).2.
Proof. reflexivity. Qed.

Lemma append_empty_r (a : string) : a +:+ "" = a.
Proof.
  induction a as [|x a IH]; [reflexivity |].
  change (String x (a +:+ "") = String x a). by rewrite IH.
Qed.

(** One call leaves every module that existed before it as it was. *)
Lemma mymodule_frame res w o mo :
  deref w o = Some mo -> deref (mymodule res w).2 o = Some mo.
Proof.
  destruct o as [[name | addr] |]; try discriminate.
  unfold deref. rewrite mymodule_heap. apply lookup_app_l_Some.
Qed.

(** X1. A module that exists is never modified by later calls: a
    reference that is valid before [n] calls of [mymodule] refers to the
    same module object, with the same name, docstring and classes, after
    them. *)
Theorem mymodule_times_frame (n : nat) (res : py_object) (w : world)
    (o : py_object) (mo : module_obj) :
  deref w o = Some mo ->
  deref (mymodule_times n res w).2 o = Some mo.
Proof.
  revert res w. induction n as [|n IH]; intros res w Ho; [exact Ho |].
  rewrite mymodule_times_S. by apply IH, mymodule_frame.
Qed.

Lemma mymodule_times_frame_witness :
  deref (mymodule None world0).2 (Some (ExtensionModule 0)) = Some registered_module
  /\ deref (mymodule_times 3 None (mymodule None world0).2).2
       (Some (ExtensionModule 0)) = Some registered_module.
Proof.
  split; [reflexivity |].
  apply (mymodule_times_frame 3 None (mymodule None world0).2
           (Some (ExtensionModule 0)) registered_module).
  reflexivity.
Defined.

(** X2. [n] calls in a row create [n] module objects, one per call, each
    with empty name and docstring and the one class; they print [n] lines
    and make [5 n] library calls; the reference left in [res] is the
    module created last, and the error stream is untouched. *)
Theorem mymodule_times_effect (n : nat) (res : py_object) (w : world) :
  let r := mymodule_times n res w in
  heap r.2 = heap w ++ replicate n registered_module
  /\ stdout r.2 = stdout w +:+ lines n banner
  /\ stderr r.2 = stderr w
  /\ length (calls r.2) = length (calls w) + 5 * n
  /\ r.1 = match n with
           | 0 => res
           | S k => Some (ExtensionModule (length (heap w) + k))
           end.
Proof.
  cbv zeta. revert res w. induction n as [|n IH]; intros res w.
  - cbn [mymodule_times replicate lines]. unfold mret, St_ret. cbn [fst snd].
    rewrite app_nil_r, append_empty_r. repeat split; lia.
  - rewrite mymodule_times_S.
    destruct (IH (mymodule res w).1 (mymodule res w).2)
      as (Hheap & Hout & Herr & Hcalls & Hres).
    rewrite Hheap, Hout, Herr, Hcalls, Hres.
    rewrite mymodule_heap, mymodule_stdout, mymodule_stderr, mymodule_calls.
    repeat split.
    + by rewrite <- app_assoc.
    + by rewrite append_assoc.
    + rewrite length_app. simpl. lia.
    + destruct n as [|k]; [by rewrite mymodule_returns, Nat.add_0_r |].
      rewrite length_app. simpl. do 2 f_equal. lia.
Qed.

Lemma mymodule_times_sys_modules n res w :
  sys_modules (mymodule_times n res w).2 =
    match n with
    | 0 => sys_modules w
    | S _ => {[ "ngsolve" ]} ∪ sys_modules w
    end.
Proof.
  revert res w. induction n as [|n IH]; intros res w; [reflexivity |].
  rewrite mymodule_times_S, IH, mymodule_sys_modules.
  destruct n; [reflexivity |]. by rewrite (assoc_L (∪)), (idemp_L (∪)).
Qed.

Lemma mymodule_times_statics n res w d :
  (forall v, statics w v = Some d) ->
  (forall v, statics (mymodule res w).2 v = Some d) ->
  forall v, statics (mymodule_times n res w).2 v = Some d.
Proof.
  revert res w. induction n as [|n IH]; intros res w Hw Hcall v; [apply Hw |].
  rewrite mymodule_times_S. apply IH; [exact Hcall |].
  intros []. rewrite mymodule_statics. rewrite <- (Hcall def).
  by rewrite mymodule_statics.
Qed.

(** X3. What the first call sets up stays as it is however many calls
    follow: the set of imported modules (the old ones and "ngsolve") and
    the content of the static [def]. *)
Theorem mymodule_times_stable (n : nat) (res : py_object) (w : world) :
  let r1 := mymodule res w in
  let rn := mymodule_times n r1.1 r1.2 in
  sys_modules rn.2 = sys_modules r1.2
  /\ sys_modules rn.2 = {[ "ngsolve" ]} ∪ sys_modules w
  /\ forall v, statics rn.2 v = statics r1.2 v.
Proof.
  cbv zeta.
  assert (Hsys : sys_modules (mymodule_times n (mymodule res w).1 (mymodule res w).2).2
                 = {[ "ngsolve" ]} ∪ sys_modules w).
  { rewrite mymodule_times_sys_modules, mymodule_sys_modules.
    destruct n; [reflexivity |]. by rewrite (assoc_L (∪)), (idemp_L (∪)). }
  split; [by rewrite Hsys, mymodule_sys_modules |]. split; [exact Hsys |].
  intros v.
  assert (Hdef : forall v', statics (mymodule res w).2 v'
                            = Some {| m_name := ""; m_doc := "" |}).
  { intros []. apply mymodule_statics. }
  rewrite Hdef. apply mymodule_times_statics; [exact Hdef |].
  intros []. apply mymodule_statics.
Qed.

Lemma mymodule_log_ordered res w :
  imported_before_export (calls w) ->
  imported_before_export (calls (mymodule res w).2).
Proof.
  intros Hlog i FES m pyname module_local Hi.
  rewrite mymodule_calls in Hi |- *.
  destruct (decide (i < length (calls w))) as [Hlt | Hge].
  - rewrite lookup_app_l in Hi by done.
    destruct (Hlog _ _ _ _ _ Hi) as (j & Hj & Hjl).
    exists j. split; [done |]. rewrite lookup_app_l by lia. done.
  - rewrite lookup_app_r in Hi by lia.
    exists (length (calls w) + 2).
    destruct (i - length (calls w)) as [|[|[|[|[|k]]]]] eqn:Hk;
      simpl in Hi; try discriminate.
    split; [lia |].
    rewrite lookup_app_r by lia.
    by replace (length (calls w) + 2 - length (calls w)) with 2 by lia.
Qed.

(** X4. No class is ever exported before "ngsolve" has been imported: if
    that holds of the library calls made so far, it holds after any number
    of calls of [mymodule]. *)
Theorem mymodule_times_log_ordered (n : nat) (res : py_object) (w : world) :
  imported_before_export (calls w) ->
  imported_before_export (calls (mymodule_times n res w).2).
Proof.
  revert res w. induction n as [|n IH]; intros res w Hlog; [exact Hlog |].
  rewrite mymodule_times_S. by apply IH, mymodule_log_ordered.
Qed.

Lemma mymodule_times_log_ordered_witness :
  imported_before_export (calls world0)
  /\ imported_before_export (calls (mymodule_times 2 None world0).2).
Proof.
  assert (H0 : imported_before_export (calls world0)).
  { intros i FES m pyname module_local Hi. destruct i; discriminate Hi. }
  split; [exact H0 |].
  exact (mymodule_times_log_ordered 2 None world0 H0).
Defined.

End RepeatedCalls.

(** * Properties of the element and space units *)

Section Elements.
Import HO HO.Element.

Lemma length_blocks (block : nat -> nat -> list ShapeFunction) (len : nat -> nat)
    (orders : list nat) :
  (forall i p, length (block i p) = len p) ->
  length (blocks block orders) = sum_list (len <$> orders).
Proof.
  unfold blocks. revert block.
  induction orders as [|p ps IH]; intros block Hlen; [reflexivity |].
  cbn [imap mjoin list_join fmap list_fmap sum_list_with].
  rewrite length_app, Hlen. f_equal.
  apply (IH (fun i => block (S i))). intros i q. apply Hlen.
Qed.

(** The number of shape functions is the sum of the per-entity counts,
    whatever the orders of the entities are. *)
Lemma GetNDof_sum (fe : FiniteElement) :
  Element.GetNDof fe =
    nvertices (fe_geometry fe)
    + sum_list (edge_ndof <$> fe_edge_orders fe)
    + sum_list (face_ndof <$> fe_face_orders fe)
    + sum_list (cell_ndof <$> fe_cell_orders fe).
Proof.
  unfold Element.GetNDof, shape_functions.
  rewrite !length_app, length_fmap, length_seq.
  rewrite (length_blocks _ edge_ndof), (length_blocks _ face_ndof),
    (length_blocks _ cell_ndof);
    [lia | intros; by rewrite length_fmap, length_seq ..].
Qed.

Lemma sum_list_fmap_replicate (f : nat -> nat) (n p : nat) :
  sum_list (f <$> replicate n p) = n * f p.
Proof. by rewrite fmap_replicate, sum_list_replicate. Qed.

Lemma make_element_supported (p_max : nat) (g : Geometry) (eo fo co : list nat) :
  (forall p, p ∈ eo ++ fo ++ co -> p <= p_max) ->
  make_element p_max g eo fo co =
    Ok {| fe_geometry := g; fe_edge_orders := eo;
          fe_face_orders := fo; fe_cell_orders := co |}.
Proof.
  intros Hle. unfold make_element.
  replace (forallb _ _) with true; [done |].
  symmetry. apply forallb_forall. intros p Hp.
  apply Nat.leb_le, Hle, list_elem_of_In, Hp.
Qed.

(** C5. For each of the three cell geometries and each order up to the
    supported maximum, the element of that order exists and its [GetNDof]
    is the closed-form sum: one per vertex, [p - 1] per edge,
    [(p - 1)(p - 2) / 2] per triangular face and
    [(p - 1)(p - 2)(p - 3) / 6] for a tetrahedral interior. *)
Theorem uniform_element_ndof (p_max : nat) (g : Geometry) (p : nat) :
  p <= p_max ->
  exists fe,
    uniform_element p_max g p = Ok fe
    /\ Element.GetNDof fe =
         match g with
         | Segment => 2 + (p - 1)
         | Triangle => 3 + 3 * (p - 1) + (p - 1) * (p - 2) / 2
         | Tetrahedron =>
             4 + 6 * (p - 1) + 4 * ((p - 1) * (p - 2) / 2)
             + (p - 1) * (p - 2) * (p - 3) / 6
         end.
Proof.
  intros Hp. eexists. split.
  - apply make_element_supported. intros q Hq.
    rewrite !elem_of_app in Hq.
    destruct Hq as [Hq | [Hq | Hq]]; apply elem_of_replicate in Hq as [-> _];
      exact Hp.
  - rewrite GetNDof_sum. cbn [fe_geometry fe_edge_orders fe_face_orders fe_cell_orders].
    rewrite !sum_list_fmap_replicate. unfold edge_ndof, face_ndof, cell_ndof.
    destruct g; cbn [nvertices nedges nfaces ncells]; lia.
Qed.

Lemma uniform_element_ndof_witness :
  4 <= 5 /\ exists fe, uniform_element 5 Tetrahedron 4 = Ok fe /\ Element.GetNDof fe = 35.
Proof.
  split; [lia |]. apply (uniform_element_ndof 5 Tetrahedron 4). lia.
Defined.

End Elements.

Section Spaces.
Import HO HO.Element HO.Space.

Lemma assign_contiguous cnt es next :
  contiguous (assign cnt es next).1 next (assign cnt es next).2.
Proof.
  revert next. induction es as [|e es IH]; intros next; [reflexivity |].
  simpl. specialize (IH (next + cnt e)).
  destruct (assign cnt es (next + cnt e)) as [rs n]. simpl in *. auto.
Qed.

Lemma assign_owners cnt es next :
  owner <$> (assign cnt es next).1 = es.
Proof.
  revert next. induction es as [|e es IH]; intros next; [reflexivity |].
  simpl. specialize (IH (next + cnt e)).
  destruct (assign cnt es (next + cnt e)) as [rs n]. simpl in *. by f_equal.
Qed.

Lemma assign_total cnt es next :
  (assign cnt es next).2 = next + sum_list (cnt <$> es).
Proof.
  revert next. induction es as [|e es IH]; intros next.
  - cbn. lia.
  - cbn [assign fmap list_fmap sum_list_with]. specialize (IH (next + cnt e)).
    destruct (assign cnt es (next + cnt e)) as [rs n]. cbn [fst snd] in *.
    rewrite IH. unfold id at 2. lia.
Qed.

Lemma contiguous_bounds rs a b :
  contiguous rs a b ->
  a <= b /\ forall r, r ∈ rs -> a <= first r /\ first r + count r <= b.
Proof.
  revert a. induction rs as [|r0 rs IH]; intros a H; simpl in H.
  - subst b. split; [lia |]. intros r Hr. by apply elem_of_nil in Hr.
  - destruct H as [Hfirst Hrest]. apply IH in Hrest as [Hle Hin].
    split; [lia |]. intros r Hr. apply elem_of_cons in Hr as [-> | Hr].
    + lia.
    + apply Hin in Hr. lia.
Qed.

Lemma contiguous_cover rs a b d :
  contiguous rs a b -> a <= d < b -> exists r, r ∈ rs /\ in_range r d.
Proof.
  revert a. induction rs as [|r0 rs IH]; intros a H Hd; simpl in H.
  - lia.
  - destruct H as [Hfirst Hrest].
    destruct (decide (d < a + count r0)) as [Hlt | Hge].
    + exists r0. split; [apply elem_of_cons; by left |]. unfold in_range. lia.
    + destruct (IH _ Hrest) as (r & Hr & Hin); [lia |].
      exists r. split; [apply elem_of_cons; by right | done].
Qed.

Lemma contiguous_disjoint rs a b r1 r2 d :
  contiguous rs a b -> r1 ∈ rs -> r2 ∈ rs ->
  in_range r1 d -> in_range r2 d -> r1 = r2.
Proof.
  revert a. induction rs as [|r0 rs IH]; intros a H H1 H2 D1 D2; simpl in H.
  - by apply elem_of_nil in H1.
  - destruct H as [Hfirst Hrest].
    pose proof (contiguous_bounds _ _ _ Hrest) as [_ Hin].
    unfold in_range in *.
    apply elem_of_cons in H1 as [-> | H1]; apply elem_of_cons in H2 as [-> | H2].
    + reflexivity.
    + apply Hin in H2. lia.
    + apply Hin in H1. lia.
    + by apply (IH _ Hrest).
Qed.

Lemma Create_ok m o : table_ok (Create m o).
Proof. split; [reflexivity | discriminate]. Qed.

Lemma Update_ok s : table_ok (Update s).
Proof.
  unfold Update.
  pose proof (assign_contiguous (entity_ndof (order s)) (entities (mesh s)) 0) as Hc.
  pose proof (assign_owners (entity_ndof (order s)) (entities (mesh s)) 0) as Ho.
  destruct (assign _ _ 0) as [rs n]. split; simpl in *; auto.
Qed.

Lemma Mutate_ok m o s : table_ok s -> table_ok (Mutate m o s).
Proof.
  intros [Hc _]. split; [exact Hc |].
  simpl. destruct (status s); discriminate.
Qed.

Lemma reachable_ok s : reachable s -> table_ok s.
Proof.
  induction 1; [apply Create_ok | apply Update_ok | by apply Mutate_ok].
Qed.

Lemma entity_dofs_owned rs e d :
  d ∈ entity_dofs rs e -> exists r, r ∈ rs /\ owner r = e /\ in_range r d.
Proof.
  unfold entity_dofs. destruct (List.find _ rs) as [r|] eqn:Hfind.
  - intros Hd. apply find_some in Hfind as [Hr Ho].
    apply bool_decide_eq_true in Ho. apply elem_of_seq in Hd.
    exists r. split; [by apply list_elem_of_In | done].
  - intros Hd. by apply elem_of_nil in Hd.
Qed.

(** What [Update] leaves in each field. *)
Lemma Update_fields s :
  mesh (Update s) = mesh s /\ order (Update s) = order s
  /\ status (Update s) = Ready
  /\ table (Update s) = (assign (entity_ndof (order s)) (entities (mesh s)) 0).1
  /\ ndof (Update s) = (assign (entity_ndof (order s)) (entities (mesh s)) 0).2.
Proof. unfold Update. by destruct (assign _ _ 0). Qed.

(** The total [Update] computes is the sum of the entities' counts. *)
Lemma Update_GetNDof s :
  Space.GetNDof (Update s) =
    sum_list (entity_ndof (order s) <$> entities (mesh s)).
Proof.
  unfold Space.GetNDof. destruct (Update_fields s) as (_ & _ & _ & _ & ->).
  by rewrite assign_total.
Qed.

Lemma assign_counts cnt es next r :
  r ∈ (assign cnt es next).1 -> count r = cnt (owner r).
Proof.
  revert next. induction es as [|e es IH]; intros next Hr.
  - by apply elem_of_nil in Hr.
  - simpl in Hr. specialize (IH (next + cnt e)).
    destruct (assign cnt es (next + cnt e)) as [rs n]. simpl in *.
    apply elem_of_cons in Hr as [-> | Hr]; [reflexivity | by apply IH].
Qed.

Lemma entity_dofs_length cnt rs e :
  (forall r, r ∈ rs -> count r = cnt (owner r)) ->
  e ∈ owner <$> rs ->
  length (entity_dofs rs e) = cnt e.
Proof.
  intros Hcnt He. unfold entity_dofs.
  destruct (List.find _ rs) as [r|] eqn:Hfind.
  - apply find_some in Hfind as [Hr Ho]. apply bool_decide_eq_true in Ho.
    rewrite length_seq, Hcnt by (by apply list_elem_of_In). by rewrite Ho.
  - apply list_elem_of_fmap in He as (r & -> & Hr).
    apply list_elem_of_In in Hr.
    pose proof (find_none _ _ Hfind _ Hr) as Hno. simpl in Hno.
    by apply bool_decide_eq_false in Hno.
Qed.

Lemma sum_list_fmap_ext {A} (f g : A -> nat) (l : list A) :
  (forall x, x ∈ l -> f x = g x) -> sum_list (f <$> l) = sum_list (g <$> l).
Proof.
  intros Hfg. f_equal. apply list_fmap_ext. intros i x Hx.
  apply Hfg. by apply list_elem_of_lookup_2 in Hx.
Qed.

(** After [Update], the indices [GetDofNrs] returns for a cell of the mesh
    are as many as the shape functions of the element [GetFE] builds for
    it (section 4.2: the element's count must match what the space hands
    out). *)
Lemma GetDofNrs_matches_GetFE p_max s c ds fe :
  (forall e, e ∈ cell_entities c -> e ∈ entities (mesh s)) ->
  length (cell_vertices c) = nvertices (geometry c) ->
  GetDofNrs (Update s) c = Ok ds ->
  GetFE p_max (Update s) c = Ok fe ->
  length ds = Element.GetNDof fe.
Proof.
  intros Hin Hnv Hds Hfe.
  destruct (Update_fields s) as (Hmesh & Hord & Hst & Htab & _).
  unfold GetDofNrs in Hds. unfold GetFE, make_element in Hfe.
  rewrite Hst in Hds, Hfe. rewrite Htab in Hds. rewrite Hord in Hfe.
  injection Hds as <-.
  destruct (forallb _ _); [| discriminate]. injection Hfe as <-.
  rewrite GetNDof_sum. cbn [fe_geometry fe_edge_orders fe_face_orders fe_cell_orders].
  rewrite length_join, <- list_fmap_compose.
  rewrite (sum_list_fmap_ext _ (entity_ndof (order s))).
  2:{ intros e He. apply entity_dofs_length.
      - intros r. apply assign_counts.
      - rewrite assign_owners. by apply Hin. }
  unfold cell_entities.
  rewrite !fmap_app, !sum_list_with_app, <- !list_fmap_compose, <- Hnv.
  change (entity_ndof (order s) ∘ Vertex) with (fun _ : nat => 1).
  rewrite sum_list_fmap_const. unfold compose. simpl. lia.
Qed.

(** C7. In every space obtained by creating, updating and mutating, so in
    particular after any [Update]: each index below [GetNDof] is owned by
    exactly one entity (an entity of the mesh while the space is Ready),
    no entity owns an index outside that range, and each index
    [GetDofNrs] returns for a cell is owned by an entity of that cell
    which is an entity of the mesh. *)
Theorem dof_ownership_partition (s : FESpace) :
  reachable s ->
  (forall d, d < Space.GetNDof s ->
     exists e, owns s e d
       /\ (forall e', owns s e' d -> e' = e)
       /\ (status s = Ready -> e ∈ entities (mesh s)))
  /\ (forall e d, owns s e d -> d < Space.GetNDof s)
  /\ (forall c ds d, GetDofNrs s c = Ok ds -> d ∈ ds ->
        exists e, e ∈ cell_entities c /\ e ∈ entities (mesh s) /\ owns s e d).
Proof.
  intros Hreach. apply reachable_ok in Hreach as [Hc Hready].
  unfold Space.GetNDof. repeat split.
  - intros d Hd.
    destruct (contiguous_cover _ _ _ d Hc) as (r & Hr & Hin); [lia |].
    exists (owner r). split; [by exists r |]. split.
    + intros e' (r' & Hr' & <- & Hin').
      by rewrite (contiguous_disjoint _ _ _ _ _ _ Hc Hr' Hr Hin' Hin).
    + intros Hst. rewrite <- Hready by done.
      apply list_elem_of_fmap. by exists r.
  - intros e d (r & Hr & _ & Hin).
    apply contiguous_bounds in Hc as [_ Hb]. apply Hb in Hr.
    unfold in_range in Hin. lia.
  - intros c ds d Hget Hd. unfold GetDofNrs in Hget.
    destruct (status s) eqn:Hst; try discriminate.
    injection Hget as <-.
    apply list_elem_of_join in Hd as (l & Hd & Hl).
    apply list_elem_of_fmap in Hl as (e & -> & He).
    apply entity_dofs_owned in Hd as (r & Hr & Ho & Hin).
    exists e. split; [done |]. split; [| by exists r].
    rewrite <- Hready by done. subst e.
    apply list_elem_of_fmap. by exists r.
Qed.

Lemma dof_ownership_partition_witness :
  reachable (Update (Create two_triangles (uniform_order 2)))
  /\ forall e d, owns (Update (Create two_triangles (uniform_order 2))) e d -> d < 9.
Proof.
  split; [apply reach_Update, reach_Create |].
  apply (dof_ownership_partition (Update (Create two_triangles (uniform_order 2)))).
  apply reach_Update, reach_Create.
Defined.

(** C6. With uniform order 2, the element of the unit triangle has the
    three vertex functions, one function per edge and no face function,
    so [GetNDof] is 6; on the two triangles sharing an edge the space
    counts one DOF for each of the 4 vertices and of the 5 edges and none
    for the faces, so its [GetNDof] is 9. *)
Theorem order_two_scenarios (p_max : nat) :
  2 <= p_max ->
  (exists fe,
     GetFE p_max (Update (Create unit_triangle (uniform_order 2)))
       unit_triangle_cell = Ok fe
     /\ shape_functions fe =
          [ VertexFunction 0; VertexFunction 1; VertexFunction 2;
            EdgeFunction 0 2; EdgeFunction 1 2; EdgeFunction 2 2 ]
     /\ Element.GetNDof fe = 6)
  /\ Space.GetNDof (Update (Create two_triangles (uniform_order 2))) = 9
  /\ (fun r => (owner r, count r))
       <$> table (Update (Create two_triangles (uniform_order 2))) =
     [ (Vertex 0, 1); (Vertex 1, 1); (Vertex 2, 1); (Vertex 3, 1);
       (Edge 0, 1); (Edge 1, 1); (Edge 2, 1); (Edge 3, 1); (Edge 4, 1);
       (Face 0, 0); (Face 1, 0) ].
Proof.
  intros Hp. split; [| split; reflexivity].
  exists {| fe_geometry := Triangle; fe_edge_orders := [2; 2; 2];
            fe_face_orders := [2]; fe_cell_orders := [] |}.
  split; [| split; reflexivity].
  change (GetFE p_max _ _) with (make_element p_max Triangle [2; 2; 2] [2] []).
  apply make_element_supported. intros q Hq.
  repeat (apply elem_of_cons in Hq as [-> | Hq]; [exact Hp |]).
  by apply elem_of_nil in Hq.
Qed.

Lemma order_two_scenarios_witness :
  2 <= 2
  /\ (exists fe,
        GetFE 2 (Update (Create unit_triangle (uniform_order 2)))
          unit_triangle_cell = Ok fe
        /\ Element.GetNDof fe = 6)
  /\ Space.GetNDof (Update (Create two_triangles (uniform_order 2))) = 9.
Proof.
  split; [lia |].
  destruct (order_two_scenarios 2) as [(fe & Hfe & _ & Hn) [Hs _]]; [lia |].
  split; [by exists fe | exact Hs].
Defined.

End Spaces.
